(** * nova::non_null — a shallow embedding of [include/nova/non_null.hpp]

    The header defines three wrappers that carry a "never null / never empty"
    invariant: [non_null<T>] over a pointer-like [T] (a bare [T*], a
    [std::unique_ptr] or a [std::shared_ptr]), [non_null_function] over
    [std::function] and [non_null_move_only_function] over
    [std::move_only_function].

    Values are modelled as the code has them: an address is a number, the null
    pointer is address zero, a smart pointer is a record of its raw words, a
    callable store is either empty or holds a target.  Operations that can
    abort ([assert]) or have undefined behaviour ([NOVA_ASSUME] on a false
    condition) return an [outcome]. *)

From stdpp Require Import base numbers option list gmap.

(** ** Build configurations and outcomes *)

(** [assert] is active unless [NDEBUG] is defined. *)
Inductive build : Set :=
| Checked     (* assertions enabled *)
| Unchecked.  (* NDEBUG: assertions compiled out *)

Inductive outcome (A : Type) : Type :=
| Ok (a : A)
| AssertionFailure     (* [assert] aborted the program *)
| UndefinedBehaviour   (* [NOVA_ASSUME] of a false condition, or a wild dereference *)
| BadFunctionCall.     (* [std::bad_function_call] thrown by an empty [std::function] *)
Arguments Ok {A} a.
Arguments AssertionFailure {A}.
Arguments UndefinedBehaviour {A}.
Arguments BadFunctionCall {A}.

#[global] Instance outcome_ret : MRet outcome := @Ok.
#[global] Instance outcome_bind : MBind outcome := λ A B k m,
  match m with
  | Ok a => k a
  | AssertionFailure => AssertionFailure
  | UndefinedBehaviour => UndefinedBehaviour
  | BadFunctionCall => BadFunctionCall
  end.

(** [assert( cond )] *)
Definition c_assert (b : build) (cond : bool) : outcome unit :=
  match b with
  | Checked => if cond then Ok () else AssertionFailure
  | Unchecked => Ok ()
  end.

(** [NOVA_ASSUME( expr )]: [[assume]], [__assume], [__builtin_assume] or
    [__builtin_unreachable] on the false branch. *)
Definition NOVA_ASSUME (cond : bool) : outcome unit :=
  if cond then Ok () else UndefinedBehaviour.

(** ** Pointer-like representations *)

Definition addr : Set := N.
Bind Scope N_scope with addr.
Definition nullptr : addr := 0%N.

(** What [non_null<T>] uses of its parameter [T]. *)
Class Pointer (T : Type) := {
  (** the raw pointer: [ptr_] itself when [std::is_pointer_v<T>], else [ptr_.get()] *)
  stored : T → addr;
  (** the state [T( std::move( x ) )] and [y = std::move( x )] leave in [x] *)
  moved_from : T → T;
  (** [detail::copyable_pointer<T>] *)
  copyable_pointer : bool;
  (** the states the pair [(a, b)] passes through in [swap( a, b )] *)
  swap_states : T → T → list (T * T);
}.
Arguments copyable_pointer T {_}.

(** [T*] *)
Record raw_ptr : Set := RawPtr { raw_addr : addr }.

(** [std::unique_ptr<T>] with the stateless default deleter *)
Record unique_ptr : Set := UniquePtr { up_addr : addr }.

(** [std::shared_ptr<T>]: the stored pointer and the control block
    (zero when the pointer owns nothing) *)
Record shared_ptr : Set := SharedPtr { sp_addr : addr; sp_ctrl : addr }.

(** [std::weak_ptr<T>]: the control block it observes *)
Record weak_ptr : Set := WeakPtr { wp_ctrl : addr }.

(** [std::weak_ptr<T>( p )] *)
Definition weak_from_shared (p : shared_ptr) : weak_ptr := WeakPtr (sp_ctrl p).

(** The generic [std::swap]: [T tmp = move(a); a = move(b); b = move(tmp);].
    Copying a bare pointer leaves its source as it was. *)
#[global] Instance raw_pointer : Pointer raw_ptr := {|
  stored := raw_addr;
  moved_from p := p;
  copyable_pointer := true;
  swap_states a b := [(a, b); (b, b); (b, a)];
|}.

(** Moving a [unique_ptr] leaves the source equal to [nullptr]; it cannot be
    copied.  [swap] exchanges the stored raw pointers with [std::swap]. *)
#[global] Instance unique_pointer : Pointer unique_ptr := {|
  stored := up_addr;
  moved_from _ := UniquePtr nullptr;
  copyable_pointer := false;
  swap_states a b := [(a, b); (b, b); (b, a)];
|}.

(** Moving a [shared_ptr] leaves the source empty, with a null stored
    pointer.  [swap] exchanges the stored pointers, then the control blocks. *)
#[global] Instance shared_pointer : Pointer shared_ptr := {|
  stored := sp_addr;
  moved_from _ := SharedPtr nullptr nullptr;
  copyable_pointer := true;
  swap_states a b :=
    [ (a, b);
      (SharedPtr (sp_addr b) (sp_ctrl a), b);
      (SharedPtr (sp_addr b) (sp_ctrl a), SharedPtr (sp_addr a) (sp_ctrl b));
      (b, SharedPtr (sp_addr a) (sp_ctrl b));
      (b, a) ];
|}.

(** [p == nullptr] *)
Definition is_null `{Pointer T} (p : T) : bool :=
  bool_decide (stored p = nullptr).

(** The result of a move: the object that was built or assigned, and what is
    left in the object that was moved from. *)
Record moved (A : Type) : Type := Moved { target : A; source : A }.
Arguments Moved {A} target source.
Arguments target {A} _.
Arguments source {A} _.

(** [std::strong_ordering] of two raw pointers *)
Definition compare_three_way (x y : addr) : comparison := N.compare x y.

(** ** The free store

    Objects live at non-null addresses; [make_unique] and [make_shared] place a
    freshly constructed object at an address that is neither null nor in use. *)

Definition allocate {V : Type} (m : gmap addr V) : addr :=
  fresh ({[nullptr]} ∪ dom m).

(** [std::make_unique<T>( args... )], with [construct] standing for the
    constructor call [T( args... )] *)
Definition make_unique {Args V : Type} (construct : Args → V)
    (args : Args) (m : gmap addr V) : unique_ptr * gmap addr V :=
  let a := allocate m in
  (UniquePtr a, <[a := construct args]> m).

(** [std::make_shared<T>( args... )]: object and control block come from one
    allocation, which the control block word identifies. *)
Definition make_shared {Args V : Type} (construct : Args → V)
    (args : Args) (m : gmap addr V) : shared_ptr * gmap addr V :=
  let a := allocate m in
  (SharedPtr a a, <[a := construct args]> m).

(** [*p] on the underlying representation *)
Definition pointee `{Pointer T} {V : Type} (p : T) (m : gmap addr V) : outcome V :=
  match m !! stored p with
  | Some v => Ok v
  | None => UndefinedBehaviour
  end.

(** ** Callable stores

    [std::function<R(Args...)>] and [std::move_only_function<R(Args...)>] are
    either empty or hold a target; the argument pack is one value of type [A]. *)

Definition function_type (A R : Type) : Type := option (A → R).

(** [static_cast<bool>( fn )] *)
Definition has_target {A R : Type} (fn : function_type A R) : bool :=
  match fn with
  | Some _ => true
  | None => false
  end.

(** [std::function::operator()]: throws when there is no target *)
Definition function_call {A R : Type} (fn : function_type A R) (x : A) : outcome R :=
  match fn with
  | Some f => Ok (f x)
  | None => BadFunctionCall
  end.

(** [std::move_only_function::operator()]: a target is a precondition *)
Definition move_only_function_call {A R : Type}
    (fn : function_type A R) (x : A) : outcome R :=
  match fn with
  | Some f => Ok (f x)
  | None => UndefinedBehaviour
  end.

(** ** namespace detail *)
Module detail.

Definition assume_nonnull `{Pointer T} (b : build) (ptr : T) : outcome unit :=
  let is_not_null := negb (is_null ptr) in
  c_assert b is_not_null ;;
  NOVA_ASSUME is_not_null.

Definition assume_not_empty {A R : Type} (b : build) (fn : function_type A R)
    : outcome unit :=
  let is_not_empty := has_target fn in
  c_assert b is_not_empty ;;
  NOVA_ASSUME is_not_empty.

End detail.

(** ** non_null *)

Record non_null (T : Type) : Type := NonNull { ptr_ : T }.
Arguments NonNull {T} ptr_.
Arguments ptr_ {T} _.

(** The right-hand side [const U& rhs] of the mixed comparisons: the literal
    [nullptr] (of type [std::nullptr_t]) or a compatible pointer value. *)
Inductive comparand : Set :=
| Nullptr_t
| PointerValue (q : addr).

Module NonNull.
Section members.
Context {T : Type} `{Pointer T}.

(** [explicit non_null( U&& p )] *)
Definition ctor (b : build) (p : T) : outcome (non_null T) :=
  let this := NonNull p in
  c_assert b (negb (is_null (ptr_ this))) ;;
  detail.assume_nonnull b (ptr_ this) ;;
  mret this.

(** [non_null( const non_null& ) = default], present when [T] can be copied *)
Definition copy_ctor (other : non_null T) : option (moved (non_null T)) :=
  if copyable_pointer T
  then Some (Moved (NonNull (ptr_ other)) other)
  else None.

(** [non_null( non_null&& other )], [requires detail::copyable_pointer<T>];
    deleted otherwise.  The member initialiser is [ptr_( std::move( other.ptr_ ) )]. *)
Definition move_ctor (other : non_null T) : option (moved (non_null T)) :=
  if copyable_pointer T
  then Some (Moved (NonNull (ptr_ other)) (NonNull (moved_from (ptr_ other))))
  else None.

(** [operator=( non_null&& other )]: [ptr_ = std::move( other.ptr_ )] *)
Definition move_assign (this other : non_null T) : option (moved (non_null T)) :=
  if copyable_pointer T
  then Some (Moved (NonNull (ptr_ other)) (NonNull (moved_from (ptr_ other))))
  else None.

(** [friend T take( non_null&& nn )]: [return std::move( nn.ptr_ )].  The
    result is paired with the state left in [nn]. *)
Definition take (nn : non_null T) : T * non_null T :=
  (ptr_ nn, NonNull (moved_from (ptr_ nn))).

(** [void swap( non_null& other )]: [using std::swap; swap( ptr_, other.ptr_ )].
    [swap_trace] lists every state the two wrappers pass through, [swap] is
    the state on return. *)
Definition swap_trace (this other : non_null T) : list (non_null T * non_null T) :=
  (λ s, (NonNull s.1, NonNull s.2)) <$> swap_states (ptr_ this) (ptr_ other).

Definition swap (this other : non_null T) : non_null T * non_null T :=
  default (this, other) (last (swap_trace this other)).

(** [pointer get() const] *)
Definition get (b : build) (this : non_null T) : outcome addr :=
  detail.assume_nonnull b (ptr_ this) ;;
  mret (stored (ptr_ this)).

(** [const T& underlying() const&] *)
Definition underlying (b : build) (this : non_null T) : outcome T :=
  detail.assume_nonnull b (ptr_ this) ;;
  mret (ptr_ this).

(** [decltype(auto) operator*() const] *)
Definition deref {V : Type} (b : build) (this : non_null T) (m : gmap addr V) : outcome V :=
  detail.assume_nonnull b (ptr_ this) ;;
  pointee (ptr_ this) m.

(** [explicit operator bool() const] *)
Definition operator_bool (this : non_null T) : bool := true.

(** [operator==( const non_null& lhs, const U& rhs )] *)
Definition eq_value (b : build) (lhs : non_null T) (rhs : comparand) : outcome bool :=
  match rhs with
  | Nullptr_t => mret false
  | PointerValue q => l ← get b lhs; mret (bool_decide (l = q))
  end.

(** [pointer operator->() const]: [return get()] *)
Definition arrow (b : build) (this : non_null T) : outcome addr :=
  get b this.

(** [explicit operator const T&() const&] *)
Definition to_underlying (b : build) (this : non_null T) : outcome T :=
  detail.assume_nonnull b (ptr_ this) ;;
  mret (ptr_ this).

(** [operator<=>( const non_null& lhs, const U& rhs )] with a compatible
    pointer value on the right *)
Definition cmp_value (b : build) (lhs : non_null T) (rhs : addr) : outcome comparison :=
  l ← get b lhs;
  mret (compare_three_way l rhs).

End members.

(** [non_null( const non_null<U>& other )], [requires std::is_convertible_v<U, T>]:
    [ptr_( other.underlying() )], then [detail::assume_nonnull( ptr_ )].
    [convert] is the implicit conversion from [U] to [T]. *)
Definition convert_ctor `{Pointer T, Pointer U} (convert : U → T) (b : build)
    (other : non_null U) : outcome (non_null T) :=
  u ← underlying b other;
  let this := NonNull (convert u) in
  detail.assume_nonnull b (ptr_ this) ;;
  mret this.

(** [operator==( const non_null& lhs, const non_null<U>& rhs )] *)
Definition eq `{Pointer T, Pointer U} (b : build)
    (lhs : non_null T) (rhs : non_null U) : outcome bool :=
  l ← get b lhs;
  r ← get b rhs;
  mret (bool_decide (l = r)).

(** [operator<=>( const non_null& lhs, const non_null<U>& rhs )] *)
Definition cmp `{Pointer T, Pointer U} (b : build)
    (lhs : non_null T) (rhs : non_null U) : outcome comparison :=
  l ← get b lhs;
  r ← get b rhs;
  mret (compare_three_way l r).

(** [lhs < rhs], which the language rewrites to [( lhs <=> rhs ) < 0] *)
Definition lt `{Pointer T, Pointer U} (b : build)
    (lhs : non_null T) (rhs : non_null U) : outcome bool :=
  c ← cmp b lhs rhs;
  mret (match c with Lt => true | _ => false end).

(** [shared_ptr::owner_before]: the order of the control blocks *)
Definition shared_owner_before (p q : shared_ptr) : bool :=
  (sp_ctrl p <? sp_ctrl q)%N.

(** [bool owner_before( const non_null< std::shared_ptr< Y > >& other ) const] *)
Definition owner_before (b : build)
    (this other : non_null shared_ptr) : outcome bool :=
  o ← underlying b other;
  mret (shared_owner_before (ptr_ this) o).

(** [bool owner_before( const std::shared_ptr< Y >& other ) const] *)
Definition owner_before_shared (this : non_null shared_ptr) (other : shared_ptr) : bool :=
  shared_owner_before (ptr_ this) other.

(** [bool owner_before( const std::weak_ptr< Y >& other ) const] *)
Definition owner_before_weak (this : non_null shared_ptr) (other : weak_ptr) : bool :=
  (sp_ctrl (ptr_ this) <? wp_ctrl other)%N.

(** [shared_ptr::owner_equal]: the same control block, or none on both sides *)
Definition shared_owner_equal (p q : shared_ptr) : bool :=
  bool_decide (sp_ctrl p = sp_ctrl q).

(** [bool owner_equal( const non_null< std::shared_ptr< Y > >& other ) const] *)
Definition owner_equal (b : build)
    (this other : non_null shared_ptr) : outcome bool :=
  o ← underlying b other;
  mret (shared_owner_equal (ptr_ this) o).

(** [bool owner_equal( const std::shared_ptr< Y >& other ) const] *)
Definition owner_equal_shared (this : non_null shared_ptr) (other : shared_ptr) : bool :=
  shared_owner_equal (ptr_ this) other.

End NonNull.

(** ** Factory functions *)

(** [try_make_non_null( T&& p )] *)
Definition try_make_non_null `{Pointer T} (b : build) (p : T)
    : outcome (option (non_null T)) :=
  if is_null p then mret None
  else nn ← NonNull.ctor b p; mret (Some nn).

(** [make_non_null_unique<T>( args... )] *)
Definition make_non_null_unique {Args V : Type} (construct : Args → V)
    (b : build) (args : Args) (m : gmap addr V)
    : outcome (non_null unique_ptr * gmap addr V) :=
  let '(p, m') := make_unique construct args m in
  nn ← NonNull.ctor b p;
  mret (nn, m').

(** [make_non_null_shared<T>( args... )] *)
Definition make_non_null_shared {Args V : Type} (construct : Args → V)
    (b : build) (args : Args) (m : gmap addr V)
    : outcome (non_null shared_ptr * gmap addr V) :=
  let '(p, m') := make_shared construct args m in
  nn ← NonNull.ctor b p;
  mret (nn, m').

(** [void swap( non_null<T>& lhs, non_null<T>& rhs )], found by ADL *)
Definition swap `{Pointer T} (lhs rhs : non_null T) : non_null T * non_null T :=
  NonNull.swap lhs rhs.

(** ** non_null_function *)

Record non_null_function (A R : Type) : Type := NonNullFunction {
  fn_ : function_type A R
}.
Arguments NonNullFunction {A R} fn_.
Arguments fn_ {A R} _.

Module NonNullFunction.
Section members.
Context {A R : Type}.

(** [explicit non_null_function( F&& f )].  [f] is a lambda or function
    object ([Some]), or a function pointer or [std::function] that may be
    null or empty. *)
Definition ctor (b : build) (f : function_type A R) : outcome (non_null_function A R) :=
  let this := NonNullFunction f in
  detail.assume_not_empty b (fn_ this) ;;
  mret this.

(** [non_null_function( const non_null_function& ) = default] *)
Definition copy_ctor (other : non_null_function A R) : moved (non_null_function A R) :=
  Moved (NonNullFunction (fn_ other)) other.

(** [non_null_function( non_null_function&& other )]: the member is
    initialised from the temporary [function_type { other.fn_ }], a copy. *)
Definition move_ctor (b : build) (other : non_null_function A R)
    : outcome (moved (non_null_function A R)) :=
  let temporary := fn_ other in
  let this := NonNullFunction temporary in
  detail.assume_not_empty b (fn_ this) ;;
  mret (Moved this other).

(** [operator=( non_null_function&& other )]: [fn_ = function_type { other.fn_ }] *)
Definition move_assign (b : build) (this other : non_null_function A R)
    : outcome (moved (non_null_function A R)) :=
  let temporary := fn_ other in
  let this := NonNullFunction temporary in
  detail.assume_not_empty b (fn_ this) ;;
  mret (Moved this other).

(** [R operator()( CallArgs&&... args ) const] *)
Definition invoke (b : build) (this : non_null_function A R) (args : A) : outcome R :=
  detail.assume_not_empty b (fn_ this) ;;
  function_call (fn_ this) args.

(** [const function_type& underlying() const&] *)
Definition underlying (this : non_null_function A R) : function_type A R :=
  fn_ this.

(** [explicit operator bool() const] *)
Definition operator_bool (this : non_null_function A R) : bool := true.

(** [void swap( non_null_function& other )]: [fn_.swap( other.fn_ )] *)
Definition swap (this other : non_null_function A R)
    : non_null_function A R * non_null_function A R :=
  (NonNullFunction (fn_ other), NonNullFunction (fn_ this)).

(** [friend function_type take( non_null_function&& nn )]: the value
    [std::move( nn.fn_ )] returns.  What the move leaves in [nn] is
    unspecified by the library and is not represented. *)
Definition take (nn : non_null_function A R) : function_type A R :=
  fn_ nn.

End members.
End NonNullFunction.

(** [void swap( non_null_function<Sig>& lhs, non_null_function<Sig>& rhs )] *)
Definition swap_function {A R : Type} (lhs rhs : non_null_function A R)
    : non_null_function A R * non_null_function A R :=
  NonNullFunction.swap lhs rhs.

(** ** non_null_move_only_function *)

Record non_null_move_only_function (A R : Type) : Type := NonNullMoveOnlyFunction {
  mo_fn_ : function_type A R
}.
Arguments NonNullMoveOnlyFunction {A R} mo_fn_.
Arguments mo_fn_ {A R} _.

Module NonNullMoveOnlyFunction.
Section members.
Context {A R : Type}.

(** [explicit non_null_move_only_function( F&& f )] *)
Definition ctor (b : build) (f : function_type A R)
    : outcome (non_null_move_only_function A R) :=
  let this := NonNullMoveOnlyFunction f in
  detail.assume_not_empty b (mo_fn_ this) ;;
  mret this.

(** [R operator()( CallArgs&&... args )] *)
Definition invoke (b : build) (this : non_null_move_only_function A R) (args : A)
    : outcome R :=
  detail.assume_not_empty b (mo_fn_ this) ;;
  move_only_function_call (mo_fn_ this) args.

(** [explicit operator bool() const] *)
Definition operator_bool (this : non_null_move_only_function A R) : bool := true.

(** [const function_type& underlying() const&] *)
Definition underlying (this : non_null_move_only_function A R) : function_type A R :=
  mo_fn_ this.

(** [void swap( non_null_move_only_function& other )]: [fn_.swap( other.fn_ )] *)
Definition swap (this other : non_null_move_only_function A R)
    : non_null_move_only_function A R * non_null_move_only_function A R :=
  (NonNullMoveOnlyFunction (mo_fn_ other), NonNullMoveOnlyFunction (mo_fn_ this)).

(** [friend function_type take( non_null_move_only_function&& nn )]: the
    value [std::move( nn.fn_ )] returns; the state left in [nn] is
    unspecified and not represented. *)
Definition take (nn : non_null_move_only_function A R) : function_type A R :=
  mo_fn_ nn.

End members.
End NonNullMoveOnlyFunction.

(** [void swap( non_null_move_only_function<Sig>& lhs, non_null_move_only_function<Sig>& rhs )] *)
Definition swap_move_only_function {A R : Type}
    (lhs rhs : non_null_move_only_function A R)
    : non_null_move_only_function A R * non_null_move_only_function A R :=
  NonNullMoveOnlyFunction.swap lhs rhs.

(** The callable of the test suite: [[]( int x ) { return x * 2; }] *)
Definition doubling (x : Z) : Z := (x * 2)%Z.

(** ** The invariant, and what the proofs ask of a representation *)

(** The invariant of the wrapper: the stored pointer is not null. *)
Definition valid `{Pointer T} (nn : non_null T) : Prop :=
  stored (ptr_ nn) ≠ nullptr.

(** [swap] ends with the two values exchanged, and on the way each side only
    ever shows a raw pointer that one of the two operands held. *)
Class PointerLaws (T : Type) `{Pointer T} : Prop := {
  swap_states_last (a b : T) :
    last (swap_states a b) = Some (b, a);
  swap_states_stored (a b : T) (s : T * T) :
    s ∈ swap_states a b →
    (stored s.1 = stored a ∨ stored s.1 = stored b) ∧
    (stored s.2 = stored a ∨ stored s.2 = stored b);
}.

(** * Properties *)

Ltac run :=
  unfold mbind, outcome_bind, mret, outcome_ret, c_assert, NOVA_ASSUME in *;
  simpl in *.

(** ** Assertions and assumptions *)

Lemma is_null_true `{Pointer T} (p : T) :
  stored p = nullptr → is_null p = true.
Proof. intros E. unfold is_null. by apply bool_decide_eq_true. Qed.

Lemma is_null_false `{Pointer T} (p : T) :
  stored p ≠ nullptr → is_null p = false.
Proof. intros E. unfold is_null. by apply bool_decide_eq_false. Qed.

Lemma is_null_spec `{Pointer T} (p : T) :
  is_null p = true ↔ stored p = nullptr.
Proof. unfold is_null. apply bool_decide_eq_true. Qed.

Lemma assume_nonnull_ok `{Pointer T} (b : build) (p : T) :
  stored p ≠ nullptr → detail.assume_nonnull b p = Ok ().
Proof.
  intros E. unfold detail.assume_nonnull.
  rewrite (is_null_false p E). by destruct b.
Qed.

Lemma assume_nonnull_checked `{Pointer T} (p : T) :
  stored p = nullptr → detail.assume_nonnull Checked p = AssertionFailure.
Proof.
  intros E. unfold detail.assume_nonnull. by rewrite (is_null_true p E).
Qed.

Lemma assume_nonnull_unchecked `{Pointer T} (p : T) :
  stored p = nullptr → detail.assume_nonnull Unchecked p = UndefinedBehaviour.
Proof.
  intros E. unfold detail.assume_nonnull. by rewrite (is_null_true p E).
Qed.

Lemma assume_not_empty_ok {A R : Type} (b : build) (f : A → R) :
  detail.assume_not_empty b (Some f) = Ok ().
Proof. by destruct b. Qed.

Lemma ctor_ok `{Pointer T} (b : build) (p : T) :
  stored p ≠ nullptr → NonNull.ctor b p = Ok (NonNull p).
Proof.
  intros E. unfold NonNull.ctor. simpl.
  rewrite (assume_nonnull_ok b p E), (is_null_false p E). by destruct b.
Qed.

Lemma ctor_checked_null `{Pointer T} (p : T) :
  stored p = nullptr → NonNull.ctor Checked p = AssertionFailure.
Proof.
  intros E. unfold NonNull.ctor. simpl. by rewrite (is_null_true p E).
Qed.

Lemma ctor_unchecked_null `{Pointer T} (p : T) :
  stored p = nullptr → NonNull.ctor Unchecked p = UndefinedBehaviour.
Proof.
  intros E. unfold NonNull.ctor. simpl.
  by rewrite (assume_nonnull_unchecked p E).
Qed.

Lemma get_ok `{Pointer T} (b : build) (nn : non_null T) :
  valid nn → NonNull.get b nn = Ok (stored (ptr_ nn)).
Proof.
  intros E. unfold NonNull.get. by rewrite (assume_nonnull_ok b _ E).
Qed.

Lemma underlying_ok `{Pointer T} (b : build) (nn : non_null T) :
  valid nn → NonNull.underlying b nn = Ok (ptr_ nn).
Proof.
  intros E. unfold NonNull.underlying. by rewrite (assume_nonnull_ok b _ E).
Qed.

(** ** The free store *)

Lemma allocate_not_null {V : Type} (m : gmap addr V) : allocate m ≠ nullptr.
Proof.
  unfold allocate. intros E.
  apply (is_fresh ({[nullptr]} ∪ dom m)). rewrite E. set_solver.
Qed.

Lemma allocate_unused {V : Type} (m : gmap addr V) : m !! allocate m = None.
Proof.
  apply not_elem_of_dom. unfold allocate. intros E.
  apply (is_fresh ({[nullptr]} ∪ dom m)). set_solver.
Qed.

(** Objects that were there before an allocation are still there, unchanged. *)
Lemma make_unique_frame {Args V : Type} (construct : Args → V) args
    (m : gmap addr V) (a : addr) (v : V) :
  m !! a = Some v → (make_unique construct args m).2 !! a = Some v.
Proof.
  intros E. unfold make_unique. simpl.
  rewrite lookup_insert_ne; [done|].
  intros <-. by rewrite allocate_unused in E.
Qed.

(** ** The three representations satisfy the laws *)

#[global] Instance raw_pointer_laws : PointerLaws raw_ptr.
Proof.
  split; [done|]. intros a b s. simpl.
  rewrite !elem_of_cons, elem_of_nil. intros [->|[->|[->|[]]]]; simpl; auto.
Qed.

#[global] Instance unique_pointer_laws : PointerLaws unique_ptr.
Proof.
  split; [done|]. intros a b s. simpl.
  rewrite !elem_of_cons, elem_of_nil. intros [->|[->|[->|[]]]]; simpl; auto.
Qed.

#[global] Instance shared_pointer_laws : PointerLaws shared_ptr.
Proof.
  split; [done|]. intros a b s. simpl.
  rewrite !elem_of_cons, elem_of_nil.
  intros [->|[->|[->|[->|[->|[]]]]]]; simpl; auto.
Qed.

(** ** Construction *)

(** C3: in a checked build, constructing a wrapper from a value aborts with an
    assertion failure exactly when the value is the null pointer; a value that
    is not null is accepted in either build, and the wrapper then holds
    exactly that value. *)
Theorem ctor_fails_iff_null `{Pointer T} (p : T) :
  (NonNull.ctor Checked p = AssertionFailure ↔ stored p = nullptr) ∧
  (NonNull.ctor Checked p = Ok (NonNull p) ↔ stored p ≠ nullptr) ∧
  (∀ b : build, stored p ≠ nullptr →
     NonNull.ctor b p = Ok (NonNull p) ∧ ptr_ (NonNull p) = p).
Proof.
  destruct (decide (stored p = nullptr)) as [E|E].
  - rewrite (ctor_checked_null p E). naive_solver.
  - rewrite (ctor_ok Checked p E). split_and!; [naive_solver..|].
    intros b _. by rewrite (ctor_ok b p E).
Qed.

Lemma ctor_fails_iff_null_witness :
  NonNull.ctor Checked (RawPtr 0) = AssertionFailure ∧
  NonNull.ctor Unchecked (UniquePtr 8) = Ok (NonNull (UniquePtr 8)).
Proof.
  split.
  - destruct (ctor_fails_iff_null (RawPtr 0)) as (null & _ & _).
    apply null. reflexivity.
  - destruct (ctor_fails_iff_null (UniquePtr 8)) as (_ & _ & live).
    apply (live Unchecked). vm_compute. discriminate.
Defined.

(** C2: [try_make_non_null] answers with the absent optional exactly when its
    argument is the null pointer.  For an argument that is not null it
    answers with a wrapper of that very value, whose [get()] is the
    argument's address.  It never runs the constructor on a null value: the
    null argument gives the absent optional in the checked build too, where
    the constructor would have aborted. *)
Theorem try_make_non_null_spec `{Pointer T} (b : build) (p : T) :
  (try_make_non_null b p = Ok None ↔ stored p = nullptr) ∧
  (stored p ≠ nullptr →
     try_make_non_null b p = Ok (Some (NonNull p)) ∧
     NonNull.get b (NonNull p) = Ok (stored p)) ∧
  (∀ nn, try_make_non_null b p = Ok (Some nn) → valid nn) ∧
  (stored p = nullptr →
     try_make_non_null Checked p = Ok None ∧
     NonNull.ctor Checked p = AssertionFailure).
Proof.
  unfold try_make_non_null.
  destruct (decide (stored p = nullptr)) as [E|E].
  - rewrite (is_null_true p E). split_and!; try done.
    split; [done|]. by apply ctor_checked_null.
  - rewrite (is_null_false p E), (ctor_ok b p E). run.
    split_and!; try done.
    + split; [done|]. by apply get_ok.
    + intros nn [= <-]. exact E.
Qed.

Lemma try_make_non_null_spec_witness :
  try_make_non_null Checked (SharedPtr 0 0) = Ok None ∧
  try_make_non_null Checked (RawPtr 12) = Ok (Some (NonNull (RawPtr 12))) ∧
  NonNull.get Checked (NonNull (RawPtr 12)) = Ok 12%N.
Proof.
  split.
  - destruct (try_make_non_null_spec Checked (SharedPtr 0 0)) as (absent & _).
    apply absent. reflexivity.
  - destruct (try_make_non_null_spec Checked (RawPtr 12)) as (_ & present & _).
    apply present. vm_compute. discriminate.
Defined.

(** ** Comparison with the null literal *)

(** C4: compared with the literal [nullptr], a wrapper is "not equal" whatever
    it holds and in either build.  The stored pointer is not read: the answer
    is the same for a wrapper whose pointer has been moved away, on which
    [get()] would abort. *)
Theorem eq_nullptr_is_false `{Pointer T} (b : build) (nn : non_null T) :
  NonNull.eq_value b nn Nullptr_t = Ok false.
Proof. reflexivity. Qed.

(** The comparison with a pointer value, by contrast, goes through [get()]. *)
Lemma eq_value_reads_pointer :
  NonNull.eq_value Checked (NonNull (RawPtr 0)) (PointerValue 0) = AssertionFailure ∧
  NonNull.eq_value Checked (NonNull (RawPtr 0)) Nullptr_t = Ok false.
Proof. split; reflexivity. Qed.

(** ** Ownership transfer *)

(** C5: [make_non_null_unique] succeeds; [take] on its result hands out the
    very [unique_ptr] that [std::make_unique] builds, whose pointee is
    [T( args... )] and which leaves the wrapper moved-from; wrapping that
    pointer again succeeds, and the new wrapper dereferences to the same
    value the first one did. *)
Theorem take_make_non_null_unique {Args V : Type} (construct : Args → V)
    (b : build) (args : Args) (m : gmap addr V) :
  ∃ (nn : non_null unique_ptr) (m' : gmap addr V),
    make_non_null_unique construct b args m = Ok (nn, m') ∧
    let p := (NonNull.take nn).1 in
    (p, m') = make_unique construct args m ∧
    pointee p m' = Ok (construct args) ∧
    stored (ptr_ (NonNull.take nn).2) = nullptr ∧
    ∃ nn2 : non_null unique_ptr,
      NonNull.ctor b p = Ok nn2 ∧
      NonNull.deref b nn2 m' = Ok (construct args) ∧
      NonNull.deref b nn2 m' = NonNull.deref b nn m'.
Proof.
  pose proof (allocate_not_null m) as live.
  exists (NonNull (UniquePtr (allocate m))), (<[allocate m := construct args]> m).
  assert (NonNull.ctor b (UniquePtr (allocate m))
          = Ok (NonNull (UniquePtr (allocate m)))) as wrap
    by by apply ctor_ok.
  assert (pointee (UniquePtr (allocate m)) (<[allocate m := construct args]> m)
          = Ok (construct args)) as read
    by (unfold pointee; simpl; by rewrite lookup_insert_eq).
  split.
  - unfold make_non_null_unique, make_unique. by rewrite wrap.
  - simpl. split_and!; [done|exact read|done|].
    eexists. split; [exact wrap|].
    unfold NonNull.deref. simpl.
    rewrite assume_nonnull_ok by done. by run.
Qed.

(** The scenario of the test suite: an [int] made from 42 on an empty store. *)
Example take_and_rewrap_42 :
  let '(nn1, m) := match make_non_null_unique (λ x : Z, x) Checked 42%Z ∅ with
                   | Ok r => r
                   | _ => (NonNull (UniquePtr nullptr), ∅)
                   end in
  (nn2 ← NonNull.ctor Checked (NonNull.take nn1).1; NonNull.deref Checked nn2 m)
  = Ok 42%Z.
Proof. vm_compute. reflexivity. Qed.

(** ** Swap *)

Lemma swap_trace_valid `{PointerLaws T} (a b : non_null T)
    (s : non_null T * non_null T) :
  valid a → valid b → s ∈ NonNull.swap_trace a b → valid s.1 ∧ valid s.2.
Proof.
  intros Ha Hb. unfold NonNull.swap_trace.
  intros (r & -> & Hr)%list_elem_of_fmap.
  destruct (swap_states_stored _ _ _ Hr) as [[E1|E1] [E2|E2]];
    unfold valid; simpl; rewrite E1, E2; done.
Qed.

Lemma swap_result `{PointerLaws T} (a b : non_null T) :
  NonNull.swap a b = (b, a).
Proof.
  unfold NonNull.swap, NonNull.swap_trace.
  rewrite fmap_last, swap_states_last. simpl. by destruct a, b.
Qed.

(** C6: after [swap] (the member or the free function) the first wrapper holds
    what the second held and the second what the first held, and in every
    state the pair passes through on the way, the final one included, both
    wrappers hold a pointer that is not null. *)
Theorem swap_exchanges `{PointerLaws T} (a b : non_null T) :
  valid a → valid b →
  NonNull.swap a b = (b, a) ∧
  swap a b = (b, a) ∧
  NonNull.swap a b ∈ NonNull.swap_trace a b ∧
  ∀ s, s ∈ NonNull.swap_trace a b →
    is_null (ptr_ s.1) = false ∧ is_null (ptr_ s.2) = false.
Proof.
  intros Ha Hb. split_and!.
  - apply swap_result.
  - unfold swap. apply swap_result.
  - rewrite swap_result. unfold NonNull.swap_trace.
    apply list_elem_of_fmap. exists (ptr_ b, ptr_ a). split.
    + by destruct a, b.
    + destruct (proj1 (last_Some _ _) (swap_states_last (ptr_ a) (ptr_ b)))
        as [before ->].
      apply elem_of_app. right. apply list_elem_of_singleton. done.
  - intros s Hs. destruct (swap_trace_valid a b s Ha Hb Hs).
    split; by apply is_null_false.
Qed.

Lemma swap_exchanges_witness :
  let a := NonNull (SharedPtr 4 4) in
  let b := NonNull (SharedPtr 8 16) in
  swap a b = (b, a) ∧
  ∀ s, s ∈ NonNull.swap_trace a b →
    is_null (ptr_ s.1) = false ∧ is_null (ptr_ s.2) = false.
Proof.
  intros a b.
  assert (valid a) as Ha by (vm_compute; discriminate).
  assert (valid b) as Hb by (vm_compute; discriminate).
  destruct (swap_exchanges a b Ha Hb) as (_ & free & _ & during).
  split; [exact free | exact during].
Defined.

(** ** Equality and ordering *)

Lemma exactly_one_less (x y : addr) :
  x ≠ y →
  xorb (match compare_three_way x y with Lt => true | _ => false end)
       (match compare_three_way y x with Lt => true | _ => false end) = true.
Proof.
  intros E. unfold compare_three_way.
  rewrite (N.compare_antisym x y).
  destruct (N.compare_spec x y); simpl; congruence.
Qed.

(** C9: two handles over the same pointee compare equal; two shared handles
    over the same allocation are ordered before one another in neither
    direction by [owner_before]; of two handles over distinct pointees,
    exactly one is less than the other under [operator<=>]. *)
Theorem ordering_consistency (b : build) :
  (∀ `{Pointer T, Pointer U} (x : non_null T) (y : non_null U),
     valid x → valid y → stored (ptr_ x) = stored (ptr_ y) →
     NonNull.eq b x y = Ok true ∧ NonNull.cmp b x y = Ok Eq) ∧
  (∀ x y : non_null shared_ptr,
     valid x → valid y → sp_ctrl (ptr_ x) = sp_ctrl (ptr_ y) →
     NonNull.owner_before b x y = Ok false ∧
     NonNull.owner_before b y x = Ok false) ∧
  (∀ `{Pointer T, Pointer U} (x : non_null T) (y : non_null U),
     valid x → valid y → stored (ptr_ x) ≠ stored (ptr_ y) →
     NonNull.eq b x y = Ok false ∧
     ∃ l r : bool,
       NonNull.lt b x y = Ok l ∧ NonNull.lt b y x = Ok r ∧ xorb l r = true).
Proof.
  split_and!.
  - intros T HT U HU x y Hx Hy E.
    unfold NonNull.eq, NonNull.cmp, compare_three_way.
    rewrite (get_ok b x Hx), (get_ok b y Hy). run. rewrite E. split.
    + by rewrite bool_decide_eq_true_2.
    + by rewrite N.compare_refl.
  - intros x y Hx Hy E. unfold NonNull.owner_before, NonNull.shared_owner_before.
    rewrite (underlying_ok b x Hx), (underlying_ok b y Hy). run.
    rewrite E, N.ltb_irrefl. done.
  - intros T HT U HU x y Hx Hy E.
    unfold NonNull.eq, NonNull.lt, NonNull.cmp.
    rewrite (get_ok b x Hx), (get_ok b y Hy). run. split.
    + by rewrite bool_decide_eq_false_2.
    + eexists _, _. split_and!; [done..|]. by apply exactly_one_less.
Qed.

Lemma ordering_consistency_witness :
  NonNull.eq Checked (NonNull (RawPtr 16)) (NonNull (SharedPtr 16 16)) = Ok true ∧
  NonNull.owner_before Checked
    (NonNull (SharedPtr 16 8)) (NonNull (SharedPtr 24 8)) = Ok false ∧
  NonNull.lt Checked (NonNull (RawPtr 16)) (NonNull (RawPtr 20)) = Ok true ∧
  NonNull.lt Checked (NonNull (RawPtr 20)) (NonNull (RawPtr 16)) = Ok false.
Proof.
  destruct (ordering_consistency Checked) as (same & owner & distinct).
  split_and!.
  - apply (same _ _ _ _ (NonNull (RawPtr 16)) (NonNull (SharedPtr 16 16)));
      vm_compute; congruence.
  - apply (owner (NonNull (SharedPtr 16 8)) (NonNull (SharedPtr 24 8)));
      vm_compute; congruence.
  - reflexivity.
  - destruct (distinct _ _ _ _ (NonNull (RawPtr 16)) (NonNull (RawPtr 20)))
      as (_ & l & r & Hl & Hr & _); [vm_compute; congruence..|].
    reflexivity.
Defined.

(** ** Moving a pointer wrapper *)

(** Moving a wrapper of a bare pointer is a copy: the source keeps its pointer. *)
Lemma move_raw_keeps_source (nn : non_null raw_ptr) (this : non_null raw_ptr) :
  NonNull.move_ctor nn = Some (Moved nn nn) ∧
  NonNull.move_assign this nn = Some (Moved nn nn) ∧
  NonNull.move_ctor nn = NonNull.copy_ctor nn.
Proof. by destruct nn as [[p]]. Qed.

(** Moving a wrapper of a [shared_ptr] moves the [shared_ptr]: whatever the
    source held, it holds the null pointer afterwards. *)
Lemma move_shared_source_null (nn this : non_null shared_ptr) :
  NonNull.move_ctor nn = Some (Moved nn (NonNull (SharedPtr nullptr nullptr))) ∧
  NonNull.move_assign this nn
    = Some (Moved nn (NonNull (SharedPtr nullptr nullptr))).
Proof. by destruct nn as [[p c]]. Qed.

(** A [unique_ptr] wrapper has no move constructor and no move assignment. *)
Lemma move_unique_deleted (nn this : non_null unique_ptr) :
  NonNull.move_ctor nn = None ∧ NonNull.move_assign this nn = None.
Proof. done. Qed.

(** C1, evaluated on the code: the wrapper that [make_non_null_shared<int>( 42 )]
    returns on an empty store satisfies the invariant, and a copy leaves it as
    it was; but after it has been moved from, by construction or by
    assignment, it holds the null pointer, and [get()] on it aborts in a
    checked build. *)
Theorem move_shared_leaves_source_null :
  ∃ (nn1 : non_null shared_ptr) (m : gmap addr Z),
    make_non_null_shared (λ x : Z, x) Checked 42%Z ∅ = Ok (nn1, m) ∧
    valid nn1 ∧
    NonNull.deref Checked nn1 m = Ok 42%Z ∧
    NonNull.copy_ctor nn1 = Some (Moved nn1 nn1) ∧
    ∃ after : moved (non_null shared_ptr),
      NonNull.move_ctor nn1 = Some after ∧
      (∀ nn2, NonNull.move_assign nn2 nn1 = Some after) ∧
      target after = nn1 ∧
      stored (ptr_ (source after)) = nullptr ∧
      NonNull.get Checked (source after) = AssertionFailure ∧
      NonNull.deref Checked (source after) m = AssertionFailure.
Proof.
  eexists _, _. split; [vm_compute; reflexivity|].
  split_and!; [vm_compute; discriminate|by vm_compute..|].
  eexists. split; [reflexivity|]. by vm_compute.
Qed.

(** ** The callable wrappers *)

(** C7: a wrapper built from a callable [f] and invoked with [x] returns
    [f x]; built from the doubling callable and invoked with 21 it returns
    42; and no invocation, not even of a wrapper that has lost its target,
    ends in the [bad_function_call] of the empty-callable check. *)
Theorem invoke_forwards {A R : Type} (b : build) :
  (∀ (f : A → R) (x : A),
     (nn ← NonNullFunction.ctor b (Some f); NonNullFunction.invoke b nn x)
     = Ok (f x)) ∧
  (nn ← NonNullFunction.ctor b (Some doubling); NonNullFunction.invoke b nn 21%Z)
  = Ok 42%Z ∧
  (∀ (nn : non_null_function A R) (x : A),
     NonNullFunction.invoke b nn x ≠ BadFunctionCall).
Proof.
  split_and!.
  - intros f x. by destruct b.
  - by destruct b.
  - intros [[f|]] x; by destruct b.
Qed.

(** C8: move construction and move assignment of a [non_null_function] copy
    the callable.  They succeed on every wrapper that holds a target, give the
    new object that target, and leave the source exactly as it was, so the
    source still holds its target and invoking it gives what it gave before. *)
Theorem function_move_is_copy {A R : Type} (b : build)
    (s : non_null_function A R) :
  has_target (fn_ s) = true →
  NonNullFunction.move_ctor b s = Ok (Moved s s) ∧
  (∀ this, NonNullFunction.move_assign b this s = Ok (Moved s s)) ∧
  NonNullFunction.move_ctor b s = Ok (NonNullFunction.copy_ctor s) ∧
  ∀ after, NonNullFunction.move_ctor b s = Ok after →
    has_target (fn_ (source after)) = true ∧
    ∀ x, NonNullFunction.invoke b (source after) x = NonNullFunction.invoke b s x.
Proof.
  destruct s as [[f|]]; [intros _|done].
  split_and!; try by destruct b.
  intros after. destruct b; by intros [= <-].
Qed.

Lemma function_move_is_copy_witness :
  let s := NonNullFunction (Some doubling) in
  NonNullFunction.move_ctor Checked s = Ok (Moved s s) ∧
  NonNullFunction.invoke Checked s 21%Z = Ok 42%Z.
Proof.
  intros s.
  destruct (function_move_is_copy Checked s) as (keeps & _); [reflexivity|].
  split; [exact keeps | reflexivity].
Defined.

(** C10: the conversion to [bool] of each of the three wrappers is the
    constant [true]; the answer is the same for a wrapper whose stored value
    is null or empty. *)
Theorem operator_bool_is_true :
  (∀ `{Pointer T} (nn : non_null T), NonNull.operator_bool nn = true) ∧
  (∀ (A R : Type) (nn : non_null_function A R),
     NonNullFunction.operator_bool nn = true) ∧
  (∀ (A R : Type) (nn : non_null_move_only_function A R),
     NonNullMoveOnlyFunction.operator_bool nn = true).
Proof. done. Qed.

(** * Further properties of the header *)

(** ** What construction and the accessors guarantee *)

(** X1: whatever the build, a wrapper the constructor returns satisfies the
    invariant and holds the value it was given; [get()] on it returns that
    value's address. *)
Theorem ctor_establishes_invariant `{Pointer T} (b : build) (p : T) (nn : non_null T) :
  NonNull.ctor b p = Ok nn →
  valid nn ∧ ptr_ nn = p ∧ NonNull.get b nn = Ok (stored p).
Proof.
  destruct (decide (stored p = nullptr)) as [E|E].
  - destruct b; [rewrite (ctor_checked_null p E)|rewrite (ctor_unchecked_null p E)];
      discriminate.
  - rewrite (ctor_ok b p E). intros [= <-]. split_and!; [exact E|done|].
    by apply get_ok.
Qed.

Lemma ctor_establishes_invariant_witness :
  valid (NonNull (SharedPtr 8 8)) ∧
  NonNull.get Unchecked (NonNull (SharedPtr 8 8)) = Ok 8%N.
Proof.
  destruct (ctor_establishes_invariant Unchecked (SharedPtr 8 8)
              (NonNull (SharedPtr 8 8))) as (inv & _ & address);
    [reflexivity|].
  split; [exact inv | exact address].
Defined.

(** X2: [get()], [operator->], [underlying()] and the conversion to
    [const T&] never hand out a null pointer: when one of them returns, the
    wrapper satisfies the invariant, and all four agree on the stored
    pointer. *)
Theorem accessors_never_null `{Pointer T} (b : build) (nn : non_null T) :
  (∀ a, NonNull.get b nn = Ok a → a ≠ nullptr ∧ a = stored (ptr_ nn)) ∧
  (∀ a, NonNull.arrow b nn = Ok a → a ≠ nullptr ∧ NonNull.get b nn = Ok a) ∧
  (∀ p, NonNull.underlying b nn = Ok p →
     stored p ≠ nullptr ∧ p = ptr_ nn ∧ NonNull.get b nn = Ok (stored p)) ∧
  (∀ p, NonNull.to_underlying b nn = Ok p →
     stored p ≠ nullptr ∧ NonNull.underlying b nn = Ok p).
Proof.
  unfold NonNull.arrow, NonNull.to_underlying, NonNull.underlying, NonNull.get.
  destruct (decide (stored (ptr_ nn) = nullptr)) as [E|E].
  - destruct b;
      [rewrite (assume_nonnull_checked _ E)|rewrite (assume_nonnull_unchecked _ E)];
      split_and!; intros ?; discriminate.
  - rewrite (assume_nonnull_ok b _ E). run.
    split_and!; intros ? [= <-]; done.
Qed.

Lemma accessors_never_null_witness :
  (12 : addr) ≠ nullptr ∧ NonNull.get Checked (NonNull (UniquePtr 12)) = Ok 12%N.
Proof.
  destruct (accessors_never_null Checked (NonNull (UniquePtr 12)))
    as (_ & through_arrow & _).
  apply (through_arrow 12%N). reflexivity.
Defined.

(** X3: a checked build detects every violation before the optimiser hint is
    reached: construction, the accessors and the comparisons never have
    undefined behaviour there.  An unchecked build never aborts, and
    construction from a value is undefined exactly when the value is null. *)
Theorem build_discipline `{Pointer T} (p : T) (nn other : non_null T) :
  (NonNull.ctor Checked p ≠ UndefinedBehaviour ∧
   NonNull.get Checked nn ≠ UndefinedBehaviour ∧
   NonNull.underlying Checked nn ≠ UndefinedBehaviour ∧
   NonNull.eq Checked nn other ≠ UndefinedBehaviour ∧
   NonNull.cmp Checked nn other ≠ UndefinedBehaviour ∧
   try_make_non_null Checked p ≠ UndefinedBehaviour) ∧
  (NonNull.ctor Unchecked p ≠ AssertionFailure ∧
   NonNull.get Unchecked nn ≠ AssertionFailure ∧
   NonNull.underlying Unchecked nn ≠ AssertionFailure ∧
   NonNull.eq Unchecked nn other ≠ AssertionFailure ∧
   NonNull.cmp Unchecked nn other ≠ AssertionFailure ∧
   try_make_non_null Unchecked p ≠ AssertionFailure) ∧
  (NonNull.ctor Unchecked p = UndefinedBehaviour ↔ stored p = nullptr).
Proof.
  unfold try_make_non_null, NonNull.eq, NonNull.cmp, NonNull.ctor,
    NonNull.get, NonNull.underlying, detail.assume_nonnull, is_null.
  simpl.
  destruct (decide (stored p = nullptr)) as [Ep|Ep];
    [rewrite (bool_decide_eq_true_2 _ Ep)|rewrite (bool_decide_eq_false_2 _ Ep)];
    (destruct (decide (stored (ptr_ nn) = nullptr)) as [En|En];
     [rewrite (bool_decide_eq_true_2 _ En)|rewrite (bool_decide_eq_false_2 _ En)]);
    (destruct (decide (stored (ptr_ other) = nullptr)) as [Eo|Eo];
     [rewrite (bool_decide_eq_true_2 _ Eo)|rewrite (bool_decide_eq_false_2 _ Eo)]);
    run; split_and!; try done.
Qed.

(** ** Consuming extraction *)

(** X4: [take] on a wrapper that satisfies the invariant returns exactly the
    pointer [underlying()] shows, which is not null; wrapping it again, by the
    constructor or by [try_make_non_null], gives back the wrapper that was
    consumed. *)
Theorem take_rewrap `{Pointer T} (b : build) (nn : non_null T) :
  valid nn →
  NonNull.underlying b nn = Ok (NonNull.take nn).1 ∧
  stored (NonNull.take nn).1 ≠ nullptr ∧
  NonNull.ctor b (NonNull.take nn).1 = Ok nn ∧
  try_make_non_null b (NonNull.take nn).1 = Ok (Some nn).
Proof.
  intros E. destruct nn as [p]. unfold valid in E. simpl in *.
  split_and!.
  - by apply (underlying_ok b (NonNull p)).
  - exact E.
  - by apply ctor_ok.
  - unfold try_make_non_null. by rewrite (is_null_false p E), (ctor_ok b p E).
Qed.

Lemma take_rewrap_witness :
  NonNull.ctor Checked (NonNull.take (NonNull (UniquePtr 4))).1
  = Ok (NonNull (UniquePtr 4)).
Proof.
  apply (take_rewrap Checked (NonNull (UniquePtr 4))).
  vm_compute. discriminate.
Defined.

(** X5: what [take] leaves behind.  A wrapper of a bare pointer is unchanged.
    A wrapper of a [unique_ptr] or of a [shared_ptr] is left holding the null
    pointer: [get()] on it aborts in a checked build and is undefined in an
    unchecked one, while [operator bool] still answers [true] and the
    comparison with [nullptr] still answers "not equal". *)
Theorem take_leaves_source (b : build) :
  (∀ nn : non_null raw_ptr, (NonNull.take nn).2 = nn) ∧
  (∀ nn : non_null unique_ptr,
     let left := (NonNull.take nn).2 in
     stored (ptr_ left) = nullptr ∧
     NonNull.get Checked left = AssertionFailure ∧
     NonNull.get Unchecked left = UndefinedBehaviour ∧
     NonNull.operator_bool left = true ∧
     NonNull.eq_value b left Nullptr_t = Ok false) ∧
  (∀ nn : non_null shared_ptr,
     let left := (NonNull.take nn).2 in
     stored (ptr_ left) = nullptr ∧
     NonNull.get Checked left = AssertionFailure ∧
     NonNull.get Unchecked left = UndefinedBehaviour ∧
     NonNull.operator_bool left = true ∧
     NonNull.eq_value b left Nullptr_t = Ok false).
Proof.
  split_and!.
  - by intros [[p]].
  - intros nn. by vm_compute.
  - intros nn. by vm_compute.
Qed.

(** ** The converting constructor *)

(** X6: the converting constructor reads its source through [underlying()] and
    validates the converted pointer again.  Whatever it returns satisfies the
    invariant, holds the conversion of the source's pointer and comes from a
    source that satisfied the invariant; a source that has lost its pointer
    makes it abort in a checked build.  When the conversion keeps non-null
    pointers non-null, as the pointer conversions do, it succeeds on every
    source that satisfies the invariant. *)
Theorem convert_ctor_spec `{Pointer T, Pointer U} (convert : U → T)
    (b : build) (other : non_null U) :
  (∀ nn, NonNull.convert_ctor convert b other = Ok nn →
     valid nn ∧ valid other ∧ ptr_ nn = convert (ptr_ other)) ∧
  (stored (ptr_ other) = nullptr →
     NonNull.convert_ctor convert Checked other = AssertionFailure ∧
     NonNull.convert_ctor convert Unchecked other = UndefinedBehaviour) ∧
  ((∀ u, stored u ≠ nullptr → stored (convert u) ≠ nullptr) →
     valid other →
     NonNull.convert_ctor convert b other = Ok (NonNull (convert (ptr_ other)))).
Proof.
  unfold NonNull.convert_ctor, NonNull.underlying.
  split_and!.
  - intros nn. destruct (decide (stored (ptr_ other) = nullptr)) as [E|E].
    + destruct b;
        [rewrite (assume_nonnull_checked _ E)|rewrite (assume_nonnull_unchecked _ E)];
        discriminate.
    + rewrite (assume_nonnull_ok b _ E). run.
      destruct (decide (stored (convert (ptr_ other)) = nullptr)) as [C|C].
      * destruct b;
          [rewrite (assume_nonnull_checked _ C)|rewrite (assume_nonnull_unchecked _ C)];
          discriminate.
      * rewrite (assume_nonnull_ok b _ C). by intros [= <-].
  - intros E.
    by rewrite (assume_nonnull_checked _ E), (assume_nonnull_unchecked _ E).
  - intros keeps E. rewrite (assume_nonnull_ok b _ E). run.
    by rewrite (assume_nonnull_ok b _ (keeps _ E)).
Qed.

(** The conversion of the test suite: [Derived*] to [Base*]. *)
Lemma convert_ctor_spec_witness :
  NonNull.convert_ctor (λ d : raw_ptr, d) Checked (NonNull (RawPtr 32))
  = Ok (NonNull (RawPtr 32)) ∧
  NonNull.convert_ctor (λ d : shared_ptr, d) Checked (NonNull (SharedPtr 0 0))
  = AssertionFailure.
Proof.
  split.
  - destruct (convert_ctor_spec (λ d : raw_ptr, d) Checked (NonNull (RawPtr 32)))
      as (_ & _ & live).
    apply live; [intros u E; exact E | vm_compute; discriminate].
  - destruct (convert_ctor_spec (λ d : shared_ptr, d) Checked
                (NonNull (SharedPtr 0 0))) as (_ & lost & _).
    apply lost. reflexivity.
Defined.

(** ** The factories and the objects already there *)

Lemma deref_live `{Pointer T} {V : Type} (b : build) (nn : non_null T)
    (m : gmap addr V) (v : V) :
  valid nn → m !! stored (ptr_ nn) = Some v → NonNull.deref b nn m = Ok v.
Proof.
  intros E L. unfold NonNull.deref, pointee.
  rewrite (assume_nonnull_ok b _ E). run. by rewrite L.
Qed.

(** X7: [make_non_null_shared] always succeeds.  The wrapper it returns
    satisfies the invariant, owns a control block, and dereferences to
    [T( args... )].  Its pointee is a new object: every wrapper whose pointee
    was alive before still dereferences to the same value afterwards and
    compares unequal to the new wrapper. *)
Theorem make_non_null_shared_spec {Args V : Type} (construct : Args → V)
    (b : build) (args : Args) (m : gmap addr V) :
  ∃ (nn : non_null shared_ptr) (m' : gmap addr V),
    make_non_null_shared construct b args m = Ok (nn, m') ∧
    valid nn ∧
    sp_ctrl (ptr_ nn) ≠ nullptr ∧
    NonNull.deref b nn m' = Ok (construct args) ∧
    ∀ (U : Type) (HU : Pointer U) (old : non_null U) (v : V),
      m !! stored (ptr_ old) = Some v → valid old →
      NonNull.deref b old m' = Ok v ∧ NonNull.eq b nn old = Ok false.
Proof.
  pose proof (allocate_not_null m) as live.
  pose proof (allocate_unused m) as unused.
  exists (NonNull (SharedPtr (allocate m) (allocate m))),
         (<[allocate m := construct args]> m).
  assert (valid (NonNull (SharedPtr (allocate m) (allocate m)))) as inv by done.
  split_and!.
  - unfold make_non_null_shared, make_shared. by rewrite ctor_ok.
  - exact inv.
  - exact live.
  - apply deref_live; [exact inv|]. simpl. by rewrite lookup_insert_eq.
  - intros U HU old v L E.
    assert (allocate m ≠ stored (ptr_ old)) as other
      by (intros same; rewrite <- same, unused in L; discriminate).
    split.
    + apply deref_live; [exact E|]. by rewrite lookup_insert_ne.
    + unfold NonNull.eq. rewrite (get_ok b _ inv), (get_ok b old E). run.
      by rewrite bool_decide_eq_false_2.
Qed.

(** X8: two objects made one after the other by [make_non_null_unique] are
    distinct: both factories succeed, the two wrappers compare unequal, each
    dereferences to its own [T( args... )], and after [swap] each
    dereferences to the other's. *)
Theorem make_non_null_unique_twice {Args V : Type} (construct : Args → V)
    (b : build) (args1 args2 : Args) (m : gmap addr V) :
  ∃ (nn1 nn2 : non_null unique_ptr) (m1 m2 : gmap addr V),
    make_non_null_unique construct b args1 m = Ok (nn1, m1) ∧
    make_non_null_unique construct b args2 m1 = Ok (nn2, m2) ∧
    NonNull.eq b nn1 nn2 = Ok false ∧
    NonNull.deref b nn1 m2 = Ok (construct args1) ∧
    NonNull.deref b nn2 m2 = Ok (construct args2) ∧
    NonNull.deref b (NonNull.swap nn1 nn2).1 m2 = Ok (construct args2) ∧
    NonNull.deref b (NonNull.swap nn1 nn2).2 m2 = Ok (construct args1).
Proof.
  set (m1 := <[allocate m := construct args1]> m).
  pose proof (allocate_not_null m) as live1.
  pose proof (allocate_not_null m1) as live2.
  pose proof (allocate_unused m1) as unused.
  assert (allocate m ≠ allocate m1) as other.
  { intros same. rewrite <- same in unused. unfold m1 in unused.
    by rewrite lookup_insert_eq in unused. }
  exists (NonNull (UniquePtr (allocate m))), (NonNull (UniquePtr (allocate m1))),
         m1, (<[allocate m1 := construct args2]> m1).
  assert (valid (NonNull (UniquePtr (allocate m)))) as inv1 by done.
  assert (valid (NonNull (UniquePtr (allocate m1)))) as inv2 by done.
  assert (NonNull.deref b (NonNull (UniquePtr (allocate m)))
            (<[allocate m1 := construct args2]> m1) = Ok (construct args1)) as read1.
  { apply deref_live; [exact inv1|]. simpl.
    rewrite lookup_insert_ne by done. unfold m1. by rewrite lookup_insert_eq. }
  assert (NonNull.deref b (NonNull (UniquePtr (allocate m1)))
            (<[allocate m1 := construct args2]> m1) = Ok (construct args2)) as read2.
  { apply deref_live; [exact inv2|]. simpl. by rewrite lookup_insert_eq. }
  split_and!; try done.
  - unfold make_non_null_unique, make_unique. by rewrite ctor_ok.
  - unfold make_non_null_unique, make_unique. by rewrite ctor_ok.
  - unfold NonNull.eq. rewrite (get_ok b _ inv1), (get_ok b _ inv2). run.
    by rewrite bool_decide_eq_false_2.
Qed.

(** ** Swap, again *)

(** X9: swapping twice restores both wrappers, swapping is symmetric in its
    operands, and swapping a wrapper with a copy of itself changes nothing. *)
Theorem swap_involutive `{PointerLaws T} (a b : non_null T) :
  swap (swap a b).1 (swap a b).2 = (a, b) ∧
  (swap b a).1 = (swap a b).2 ∧ (swap b a).2 = (swap a b).1 ∧
  swap a a = (a, a).
Proof.
  unfold swap. by rewrite !swap_result.
Qed.

Lemma swap_involutive_witness :
  let a := NonNull (SharedPtr 4 4) in
  let b := NonNull (SharedPtr 8 16) in
  swap (swap a b).1 (swap a b).2 = (a, b).
Proof.
  intros a b. apply (swap_involutive a b).
Defined.

Lemma make_non_null_shared_spec_witness :
  ∃ (nn : non_null shared_ptr) (m' : gmap addr Z),
    make_non_null_shared (λ x : Z, x) Checked 7%Z {[4%N := 1%Z]} = Ok (nn, m') ∧
    NonNull.deref Checked (NonNull (RawPtr 4)) m' = Ok 1%Z.
Proof.
  destruct (make_non_null_shared_spec (λ x : Z, x) Checked 7%Z {[4%N := 1%Z]})
    as (nn & m' & made & _ & _ & _ & frame).
  exists nn, m'. split; [exact made|].
  apply (frame raw_ptr _ (NonNull (RawPtr 4)) 1%Z).
  - reflexivity.
  - vm_compute. discriminate.
Defined.

(** ** Equality and ordering, the other overloads *)

(** X10: on a wrapper that satisfies the invariant, the comparison with a
    pointer value is the comparison of [get()] with it; with a pointer value
    that is null it gives the answer the literal [nullptr] gives; comparing
    with another wrapper is comparing with that wrapper's [get()]; and the
    three-way comparison says "equal" exactly when [operator==] does. *)
Theorem eq_value_spec `{Pointer T, Pointer U} (b : build)
    (x : non_null T) (y : non_null U) (q : addr) :
  valid x → valid y →
  NonNull.eq_value b x (PointerValue q) = Ok (bool_decide (stored (ptr_ x) = q)) ∧
  NonNull.eq_value b x (PointerValue nullptr) = NonNull.eq_value b x Nullptr_t ∧
  NonNull.eq b x y = NonNull.eq_value b x (PointerValue (stored (ptr_ y))) ∧
  NonNull.cmp b x y = NonNull.cmp_value b x (stored (ptr_ y)) ∧
  (NonNull.cmp_value b x q = Ok Eq ↔
   NonNull.eq_value b x (PointerValue q) = Ok true).
Proof.
  intros Ex Ey.
  unfold NonNull.eq, NonNull.cmp, NonNull.cmp_value, NonNull.eq_value,
    compare_three_way.
  rewrite (get_ok b x Ex), (get_ok b y Ey). run. split_and!; try done.
  - by rewrite bool_decide_eq_false_2.
  - destruct (N.compare_spec (stored (ptr_ x)) q) as [E|E|E].
    + by rewrite bool_decide_eq_true_2.
    + rewrite bool_decide_eq_false_2 by lia. naive_solver.
    + rewrite bool_decide_eq_false_2 by lia. naive_solver.
Qed.

Lemma eq_value_spec_witness :
  NonNull.eq_value Checked (NonNull (RawPtr 16)) (PointerValue 16) = Ok true ∧
  NonNull.eq_value Checked (NonNull (RawPtr 16)) (PointerValue nullptr)
  = NonNull.eq_value Checked (NonNull (RawPtr 16)) Nullptr_t.
Proof.
  destruct (eq_value_spec Checked (NonNull (RawPtr 16)) (NonNull (RawPtr 20)) 16)
    as (with_value & with_null & _); [vm_compute; discriminate..|].
  split; [exact with_value | exact with_null].
Defined.

(** X11: on wrappers that satisfy the invariant, [operator<=>] is a total
    order consistent with [operator==]: a wrapper is equivalent to itself,
    "equal" coincides with [==], exchanging the operands reverses the
    answer, and [<] is irreflexive and transitive. *)
Theorem cmp_total_order `{Pointer T, Pointer U, Pointer W} (b : build)
    (x : non_null T) (y : non_null U) (z : non_null W) :
  valid x → valid y → valid z →
  NonNull.cmp b x x = Ok Eq ∧
  NonNull.lt b x x = Ok false ∧
  (NonNull.cmp b x y = Ok Eq ↔ NonNull.eq b x y = Ok true) ∧
  (∃ c, NonNull.cmp b x y = Ok c ∧ NonNull.cmp b y x = Ok (CompOpp c)) ∧
  (NonNull.lt b x y = Ok true → NonNull.lt b y z = Ok true →
   NonNull.lt b x z = Ok true).
Proof.
  intros Ex Ey Ez.
  unfold NonNull.lt, NonNull.cmp, NonNull.eq, compare_three_way.
  rewrite (get_ok b x Ex), (get_ok b y Ey), (get_ok b z Ez). run.
  rewrite N.compare_refl. split_and!; try done.
  - destruct (N.compare_spec (stored (ptr_ x)) (stored (ptr_ y))) as [E|E|E].
    + by rewrite bool_decide_eq_true_2.
    + rewrite bool_decide_eq_false_2 by lia. naive_solver.
    + rewrite bool_decide_eq_false_2 by lia. naive_solver.
  - eexists. split; [done|]. by rewrite (N.compare_antisym (stored (ptr_ x))).
  - destruct (N.compare_spec (stored (ptr_ x)) (stored (ptr_ y))); try done.
    destruct (N.compare_spec (stored (ptr_ y)) (stored (ptr_ z))); try done.
    intros _ _. destruct (N.compare_spec (stored (ptr_ x)) (stored (ptr_ z)));
      [lia|done|lia].
Qed.

Lemma cmp_total_order_witness :
  NonNull.lt Checked (NonNull (RawPtr 16)) (NonNull (SharedPtr 24 8)) = Ok true.
Proof.
  destruct (cmp_total_order Checked (NonNull (RawPtr 16))
              (NonNull (UniquePtr 20)) (NonNull (SharedPtr 24 8)))
    as (_ & _ & _ & _ & chain); [vm_compute; discriminate..|].
  apply chain; reflexivity.
Defined.

(** X12: on wrappers that satisfy the invariant, [owner_before] is a strict
    weak order on control blocks: irreflexive, asymmetric and transitive.  It
    looks at nothing but the control blocks, the three overloads agree, and
    [owner_equal] holds exactly when neither handle is before the other. *)
Theorem owner_before_strict_weak_order (b : build)
    (x y z : non_null shared_ptr) :
  valid x → valid y → valid z →
  NonNull.owner_before b x x = Ok false ∧
  (NonNull.owner_before b x y = Ok true → NonNull.owner_before b y x = Ok false) ∧
  (NonNull.owner_before b x y = Ok true → NonNull.owner_before b y z = Ok true →
   NonNull.owner_before b x z = Ok true) ∧
  NonNull.owner_before b x y
  = Ok (bool_decide (sp_ctrl (ptr_ x) < sp_ctrl (ptr_ y))%N) ∧
  NonNull.owner_before b x y = Ok (NonNull.owner_before_shared x (ptr_ y)) ∧
  NonNull.owner_before b x y
  = Ok (NonNull.owner_before_weak x (weak_from_shared (ptr_ y))) ∧
  NonNull.owner_equal b x y = Ok (NonNull.owner_equal_shared x (ptr_ y)) ∧
  (NonNull.owner_equal b x y = Ok true ↔
   NonNull.owner_before b x y = Ok false ∧ NonNull.owner_before b y x = Ok false).
Proof.
  intros Ex Ey Ez.
  unfold NonNull.owner_before, NonNull.owner_equal, NonNull.owner_before_shared,
    NonNull.owner_before_weak, NonNull.owner_equal_shared,
    NonNull.shared_owner_before, NonNull.shared_owner_equal, weak_from_shared.
  rewrite (underlying_ok b x Ex), (underlying_ok b y Ey), (underlying_ok b z Ez).
  run. rewrite N.ltb_irrefl.
  set (cx := sp_ctrl (ptr_ x)). set (cy := sp_ctrl (ptr_ y)).
  set (cz := sp_ctrl (ptr_ z)).
  split_and!; try done.
  - intros [= L]. f_equal. apply N.ltb_lt in L. apply N.ltb_ge. lia.
  - intros [= Lxy] [= Lyz]. f_equal.
    apply N.ltb_lt in Lxy, Lyz. apply N.ltb_lt. lia.
  - f_equal. destruct (N.ltb_spec cx cy).
    + by rewrite bool_decide_eq_true_2.
    + rewrite bool_decide_eq_false_2; [done|lia].
  - split.
    + intros [= E%bool_decide_eq_true]. rewrite E, N.ltb_irrefl. done.
    + intros [[= Lxy%N.ltb_ge] [= Lyx%N.ltb_ge]]. f_equal.
      apply bool_decide_eq_true. lia.
Qed.

Lemma owner_before_strict_weak_order_witness :
  NonNull.owner_equal Checked (NonNull (SharedPtr 16 8)) (NonNull (SharedPtr 24 8))
  = Ok true.
Proof.
  destruct (owner_before_strict_weak_order Checked (NonNull (SharedPtr 16 8))
              (NonNull (SharedPtr 24 8)) (NonNull (SharedPtr 32 40)))
    as (_ & _ & _ & _ & _ & _ & _ & equal); [vm_compute; discriminate..|].
  apply equal. split; reflexivity.
Defined.

(** ** Dereference *)

(** X13: dereferencing a wrapper that satisfies the invariant reads the object
    at the address [get()] returns.  The invariant says nothing about that
    object being alive: when there is none, the dereference is undefined in
    the checked build too, where the null check has passed. *)
Theorem deref_spec `{Pointer T} {V : Type} (b : build) (nn : non_null T)
    (m : gmap addr V) :
  valid nn →
  NonNull.deref b nn m = pointee (ptr_ nn) m ∧
  (∀ v, m !! stored (ptr_ nn) = Some v →
     NonNull.get b nn = Ok (stored (ptr_ nn)) ∧ NonNull.deref b nn m = Ok v) ∧
  (m !! stored (ptr_ nn) = None →
     NonNull.deref Checked nn m = UndefinedBehaviour ∧
     NonNull.deref Unchecked nn m = UndefinedBehaviour).
Proof.
  intros E. unfold NonNull.deref, pointee.
  rewrite !(assume_nonnull_ok _ _ E). run. split_and!.
  - done.
  - intros v L. rewrite L. split; [by apply get_ok|done].
  - by intros ->.
Qed.

(** The scenario of the test suite: [int x = 42; non_null<int*> p( &x );] *)
Lemma deref_spec_witness :
  NonNull.get Checked (NonNull (RawPtr 64)) = Ok 64%N ∧
  NonNull.deref Checked (NonNull (RawPtr 64)) ({[64%N := 42%Z]} : gmap addr Z)
  = Ok 42%Z.
Proof.
  destruct (deref_spec Checked (NonNull (RawPtr 64))
              ({[64%N := 42%Z]} : gmap addr Z)) as (_ & alive & _);
    [vm_compute; discriminate|].
  apply (alive 42%Z). reflexivity.
Defined.

(** ** Moving a wrapper of a bare pointer *)

(** X14: move construction and move assignment of a wrapper of a bare pointer
    keep the invariant on both sides: the new object and the source hold the
    same pointer afterwards, compare equal, and dereference to the same
    value. *)
Theorem move_raw_preserves_invariant {V : Type} (b : build)
    (nn this : non_null raw_ptr) (m : gmap addr V) :
  valid nn →
  ∃ after : moved (non_null raw_ptr),
    NonNull.move_ctor nn = Some after ∧
    NonNull.move_assign this nn = Some after ∧
    valid (target after) ∧ valid (source after) ∧
    NonNull.get b (source after) = NonNull.get b nn ∧
    NonNull.eq b (target after) (source after) = Ok true ∧
    NonNull.deref b (target after) m = NonNull.deref b (source after) m.
Proof.
  intros E. destruct nn as [[p]]. eexists. split_and!; try done.
  unfold NonNull.eq. simpl. rewrite (get_ok b _ E). run.
  by rewrite bool_decide_eq_true_2.
Qed.

Lemma move_raw_preserves_invariant_witness :
  ∃ after : moved (non_null raw_ptr),
    NonNull.move_ctor (NonNull (RawPtr 64)) = Some after ∧
    NonNull.get Checked (source after) = Ok 64%N.
Proof.
  destruct (move_raw_preserves_invariant Checked (NonNull (RawPtr 64))
              (NonNull (RawPtr 72)) (∅ : gmap addr Z))
    as (after & built & _ & _ & _ & same & _); [vm_compute; discriminate|].
  exists after. split; [exact built | exact same].
Defined.

(** ** The callable wrappers, the rest *)



(** X16: an invocation returns a result exactly when calling the underlying
    callable store returns it, for both wrappers.  A wrapper that has lost its
    target aborts in a checked build and is undefined in an unchecked one;
    the move-only wrapper, built from a callable [f], returns [f x]. *)
Theorem invoke_agrees_with_underlying {A R : Type} (b : build) (x : A) :
  (∀ (nn : non_null_function A R) (r : R),
     NonNullFunction.invoke b nn x = Ok r ↔
     function_call (NonNullFunction.underlying nn) x = Ok r) ∧
  (∀ (nn : non_null_move_only_function A R) (r : R),
     NonNullMoveOnlyFunction.invoke b nn x = Ok r ↔
     move_only_function_call (NonNullMoveOnlyFunction.underlying nn) x = Ok r) ∧
  NonNullFunction.invoke Checked (NonNullFunction (@None (A → R))) x
  = AssertionFailure ∧
  NonNullFunction.invoke Unchecked (NonNullFunction (@None (A → R))) x
  = UndefinedBehaviour ∧
  NonNullMoveOnlyFunction.invoke Checked (NonNullMoveOnlyFunction (@None (A → R))) x
  = AssertionFailure ∧
  NonNullMoveOnlyFunction.invoke Unchecked (NonNullMoveOnlyFunction (@None (A → R))) x
  = UndefinedBehaviour ∧
  (∀ f : A → R,
     (nn ← NonNullMoveOnlyFunction.ctor b (Some f);
      NonNullMoveOnlyFunction.invoke b nn x) = Ok (f x)).
Proof.
  split_and!; try done.
  - intros [[f|]] r; destruct b; done.
  - intros [[f|]] r; destruct b; done.
  - intros f. by destruct b.
Qed.

(** X17: [swap] on the callable wrappers, member or free function, exchanges
    behaviour: each wrapper afterwards answers every invocation as the other
    did before, a second swap restores both, and both still hold a target if
    both did. *)
Theorem function_swap_exchanges {A R : Type} (b : build)
    (f g : non_null_function A R) (p q : non_null_move_only_function A R) :
  (∀ x, NonNullFunction.invoke b (swap_function f g).1 x
        = NonNullFunction.invoke b g x) ∧
  (∀ x, NonNullFunction.invoke b (swap_function f g).2 x
        = NonNullFunction.invoke b f x) ∧
  swap_function (swap_function f g).1 (swap_function f g).2 = (f, g) ∧
  swap_function f g = NonNullFunction.swap f g ∧
  (has_target (fn_ f) = true → has_target (fn_ g) = true →
   has_target (fn_ (swap_function f g).1) = true ∧
   has_target (fn_ (swap_function f g).2) = true) ∧
  (∀ x, NonNullMoveOnlyFunction.invoke b (swap_move_only_function p q).1 x
        = NonNullMoveOnlyFunction.invoke b q x) ∧
  (∀ x, NonNullMoveOnlyFunction.invoke b (swap_move_only_function p q).2 x
        = NonNullMoveOnlyFunction.invoke b p x) ∧
  swap_move_only_function (swap_move_only_function p q).1
    (swap_move_only_function p q).2 = (p, q).
Proof.
  destruct f as [f], g as [g], p as [p], q as [q]. split_and!; done.
Qed.

Lemma function_swap_exchanges_witness :
  let one := NonNullFunction (Some (λ _ : unit, 1%Z)) in
  let two := NonNullFunction (Some (λ _ : unit, 2%Z)) in
  has_target (fn_ (swap_function one two).1) = true ∧
  NonNullFunction.invoke Checked (swap_function one two).1 () = Ok 2%Z.
Proof.
  intros one two.
  destruct (function_swap_exchanges Checked one two
              (NonNullMoveOnlyFunction (Some (λ _ : unit, 1%Z)))
              (NonNullMoveOnlyFunction (Some (λ _ : unit, 2%Z))))
    as (first & _ & _ & _ & targets & _).
  split.
  - apply targets; reflexivity.
  - rewrite first. reflexivity.
Defined.

(** X18: [take] on a callable wrapper that holds a target returns a callable
    store which answers every call as the wrapper answered the invocation,
    and from which the wrapper can be built again. *)
Theorem function_take_rewrap {A R : Type} (b : build)
    (f : non_null_function A R) (p : non_null_move_only_function A R) :
  has_target (fn_ f) = true → has_target (mo_fn_ p) = true →
  (∀ x, function_call (NonNullFunction.take f) x = NonNullFunction.invoke b f x) ∧
  NonNullFunction.ctor b (NonNullFunction.take f) = Ok f ∧
  (∀ x, move_only_function_call (NonNullMoveOnlyFunction.take p) x
        = NonNullMoveOnlyFunction.invoke b p x) ∧
  NonNullMoveOnlyFunction.ctor b (NonNullMoveOnlyFunction.take p) = Ok p.
Proof.
  destruct f as [[f|]], p as [[p|]]; try done. intros _ _.
  split_and!; intros; by destruct b.
Qed.

Lemma function_take_rewrap_witness :
  function_call (NonNullFunction.take (NonNullFunction (Some doubling))) 21%Z
  = Ok 42%Z.
Proof.
  destruct (function_take_rewrap Checked (NonNullFunction (Some doubling))
              (NonNullMoveOnlyFunction (Some doubling)))
    as (calls & _); [reflexivity..|].
  rewrite calls. reflexivity.
Defined.
